(** * fix_templates.py: the two regular-expression repairs and the file driver

    The script reads a file as text, runs [re.sub] twice on the content,
    writes the result back and prints one status line; a driver runs this
    over six fixed paths.  The development below embeds

    - Python text as a list of code points,
    - the fragment of [re] that the two patterns of the script use
      (escaped characters, ordinary characters, the end anchor),
      together with the left-to-right, non-overlapping scan of [re.sub],
    - the file system, the console and exceptions as a state-and-error
      monad, in which [fix_template_literals] and the driver are written
      statement by statement. *)

From Stdlib Require Import NArith Ascii String List Lia.
From stdpp Require Import gmap strings list.

Open Scope N_scope.

(** ** Text *)

(** A Python [str] is a sequence of Unicode code points. *)
Definition char := N.
Definition text := list char.

Definition BSLASH : char := 92.
Definition BTICK : char := 96.
Definition DOLLAR : char := 36.
Definition NEWLINE : char := 10.

(** An ASCII literal as text. *)
Definition py (s : string) : text := map N_of_ascii (list_ascii_of_string s).

(** ** The fragment of [re] patterns used by the script *)

Module Re.

(** One pattern item: a literal character, or the anchor [$]. *)
Inductive atom :=
| Lit (c : char)
| Eos.

Definition regex := list atom.

Definition is_alnum (c : char) : bool :=
  ((48 <=? c) && (c <=? 57)) || ((65 <=? c) && (c <=? 90))
  || ((97 <=? c) && (c <=? 122)).

(** The metacharacters other than backslash and dollar:
    [. ^ * + ? { } [ ] | ( )]. *)
Definition is_meta (c : char) : bool :=
  existsb (N.eqb c) [46; 94; 42; 43; 63; 123; 125; 91; 93; 124; 40; 41].

(** [parse] reads a pattern: a backslash followed by a character that is
    not alphanumeric stands for that character, an unescaped dollar is the
    end anchor, any character that is not a metacharacter stands for
    itself.  Everything else lies outside the fragment ([None]). *)
Fixpoint parse (p : list char) : option regex :=
  match p with
  | [] => Some []
  | c :: p1 =>
      if c =? BSLASH then
        match p1 with
        | [] => None
        | d :: p2 =>
            if is_alnum d then None else cons (Lit d) <$> parse p2
        end
      else if c =? DOLLAR then cons Eos <$> parse p1
      else if is_meta c then None
      else cons (Lit c) <$> parse p1
  end.

Definition compile (pattern : string) : option regex := parse (py pattern).

(** The value of a pattern that is known to compile. *)
Definition compiled (o : option regex)
  : match o with Some _ => regex | None => unit end :=
  match o with Some r => r | None => tt end.

(** [$] without [re.MULTILINE]: the end of the text, or just before a
    newline that is the last character of the text.  [s] is what is left
    of the text at the current position. *)
Definition at_eos (s : text) : bool :=
  match s with
  | [] => true
  | [c] => c =? NEWLINE
  | _ => false
  end.

(** [match_len r s]: the pattern matches at the start of [s], consuming
    that many characters.  The fragment has no alternation and no
    repetition, so there is at most one way to match. *)
Fixpoint match_len (r : regex) (s : text) : option nat :=
  match r with
  | [] => Some 0%nat
  | Lit c :: r' =>
      match s with
      | x :: s' => if x =? c then S <$> match_len r' s' else None
      | [] => None
      end
  | Eos :: r' => if at_eos s then match_len r' s else None
  end.

(** The scan of [re.sub]: at each position, from left to right, a match
    is replaced by [repl] and the scan resumes after it; otherwise the
    character is copied.  [skip] counts the characters of the current
    match that remain to be passed over. *)
Fixpoint scan (r : regex) (repl : text) (skip : nat) (s : text) : text :=
  match s with
  | [] =>
      match skip, match_len r [] with
      | O, Some _ => repl
      | _, _ => []
      end
  | c :: s' =>
      match skip with
      | S k => scan r repl k s'
      | O =>
          match match_len r s with
          | Some (S k) => repl ++ scan r repl k s'
          | Some O => repl ++ c :: scan r repl 0 s'
          | None => c :: scan r repl 0 s'
          end
      end
  end.

(** [re.sub(pattern, repl, string)] for a compiled pattern and a
    replacement without backslash (which is then taken literally). *)
Definition sub (r : regex) (repl : text) (s : text) : text :=
  scan r repl 0 s.

End Re.

(** ** The two substitutions of [fix_template_literals] *)

(** [r'\\\\`'] *)
Definition backtick_re : Re.regex := Re.compiled (Re.compile "\\\\`").

(** [r'\\\\\\$'] *)
Definition dollar_re : Re.regex := Re.compiled (Re.compile "\\\\\\$").

(** [content = re.sub(r'\\\\`', '`', content)] *)
Definition fix_backticks (content : text) : text :=
  Re.sub backtick_re (py "`") content.

(** [content = re.sub(r'\\\\\\$', '$', content)] *)
Definition fix_dollars (content : text) : text :=
  Re.sub dollar_re (py "$") content.

(** The content written back: the first substitution, then the second. *)
Definition fix_content (content : text) : text :=
  fix_dollars (fix_backticks content).

(** ** Occurrences and match positions *)

(** [p] occurs in [s] as a contiguous block. *)
Definition occurs (p s : text) : Prop := exists u v, s = u ++ p ++ v.

(** The same, as a test: [p in s] in Python. *)
Fixpoint starts_with (p s : text) : bool :=
  match p, s with
  | [], _ => true
  | a :: p', b :: s' => (a =? b) && starts_with p' s'
  | _ :: _, [] => false
  end.

Fixpoint occursb (p s : text) : bool :=
  starts_with p s ||
  match s with
  | [] => false
  | _ :: s' => occursb p s'
  end.

(** The text starts with backslash, backslash, backtick. *)
Definition bt_head (s : text) : bool :=
  match s with
  | a :: b :: c :: _ => (a =? BSLASH) && (b =? BSLASH) && (c =? BTICK)
  | _ => false
  end.

(** The text is three backslashes followed by the end of the text
    (possibly with its final newline). *)
Definition dl_head (s : text) : bool :=
  match s with
  | a :: b :: c :: e =>
      (a =? BSLASH) && (b =? BSLASH) && (c =? BSLASH) && Re.at_eos e
  | _ => false
  end.

(** The text ends with three backslashes, up to a final newline. *)
Definition dl_tail (s : text) : Prop :=
  exists u e, Re.at_eos e = true /\ s = u ++ BSLASH :: BSLASH :: BSLASH :: e.

(** ** Files, console and exceptions *)

(** The exceptions that the file operations of the script raise. *)
Inductive exn :=
| FileNotFoundError (filename : string)
| PermissionError (filename : string)
| UnicodeDecodeError (reason : string).

(** [str(e)], as the f-string of the handler formats it.  The file name is
    shown between single quotes, which is its [repr] when it has no quote,
    backslash or control character. *)
Definition exn_str (e : exn) : string :=
  match e with
  | FileNotFoundError f =>
      "[Errno 2] No such file or directory: '" +:+ f +:+ "'"
  | PermissionError f => "[Errno 13] Permission denied: '" +:+ f +:+ "'"
  | UnicodeDecodeError reason => "'utf-8' codec can't decode " +:+ reason
  end.

(** What a file holds, as the text layer of Python presents it: the text
    that [read] returns, or bytes that the UTF-8 decoder rejects for the
    given reason. *)
Inductive fdata :=
| Utf8 (t : text)
| NotUtf8 (reason : string).

Record file := File {
  f_data : fdata;
  f_readable : bool;
  f_writable : bool
}.

(** The world: the files by path, and the lines printed so far. *)
Record world := World {
  fs : gmap string file;
  stdout : list string
}.

(** Computations that read and change the world and may raise. *)
Definition M (A : Type) : Type := world -> (exn + A) * world.

Definition ret {A} (a : A) : M A := fun w => (inr a, w).

Definition raise {A} (e : exn) : M A := fun w => (inl e, w).

Definition bind {A B} (m : M A) (k : A -> M B) : M B :=
  fun w =>
    match m w with
    | (inl e, w') => (inl e, w')
    | (inr a, w') => k a w'
    end.

(** [try: body except Exception as e: handler] *)
Definition try_except {A} (body : M A) (handler : exn -> M A) : M A :=
  fun w =>
    match body w with
    | (inl e, w') => handler e w'
    | (inr a, w') => (inr a, w')
    end.

Notation "x <-- m ;; k" := (bind m (fun x => k))
  (at level 100, m at next level, k at level 200, right associativity).
Notation "m ;;; k" := (bind m (fun _ => k))
  (at level 100, k at level 200, right associativity).

(** [open(filename, 'r', encoding='utf-8')]: the file object, when the file
    exists and may be read. *)
Definition open_r (filename : string) : M file :=
  fun w =>
    match fs w !! filename with
    | None => (inl (FileNotFoundError filename), w)
    | Some f =>
        if f_readable f then (inr f, w)
        else (inl (PermissionError filename), w)
    end.

(** [f.read()]: the whole file, decoded. *)
Definition read (f : file) : M text :=
  match f_data f with
  | Utf8 t => ret t
  | NotUtf8 reason => raise (UnicodeDecodeError reason)
  end.

(** [open(filename, 'w', encoding='utf-8')]: the file is emptied when it
    may be written, and created when it does not exist. *)
Definition open_w (filename : string) : M unit :=
  fun w =>
    match fs w !! filename with
    | None =>
        (inr tt, World (<[filename := File (Utf8 []) true true]> (fs w))
                       (stdout w))
    | Some f =>
        if f_writable f then
          (inr tt, World (<[filename := File (Utf8 []) (f_readable f) true]>
                            (fs w))
                         (stdout w))
        else (inl (PermissionError filename), w)
    end.

(** [f.write(content)] on the file just opened for writing, up to the end
    of the [with] block.  Text that was read from a file encodes without
    error. *)
Definition write (filename : string) (content : text) : M unit :=
  fun w =>
    (inr tt,
     World (alter (fun f => File (Utf8 content) (f_readable f) (f_writable f))
                  filename (fs w))
           (stdout w)).

(** [print(line)] *)
Definition print (line : string) : M unit :=
  fun w => (inr tt, World (fs w) (stdout w ++ [line])).

(** ** The script *)

(** [with open(filename, 'r', encoding='utf-8') as f: content = f.read()] *)
Definition read_file (filename : string) : M text :=
  f <-- open_r filename ;;
  read f.

(** [with open(filename, 'w', encoding='utf-8') as f: f.write(content)] *)
Definition write_file (filename : string) (content : text) : M unit :=
  open_w filename ;;;
  write filename content.

(** The [try] block of [fix_template_literals]. *)
Definition fix_template_literals_body (filename : string) : M unit :=
  content <-- read_file filename ;;
  let content := fix_backticks content in
  let content := fix_dollars content in
  write_file filename content ;;;
  print ("Fixed " +:+ filename).

Definition fix_template_literals (filename : string) : M unit :=
  try_except
    (fix_template_literals_body filename)
    (fun e => print ("Error fixing " +:+ filename +:+ ": " +:+ exn_str e)).

Definition files : list string :=
  [ "src/api-server.ts";
    "src/backfill/utils.ts";
    "src/jetstream-collector-enhanced.ts";
    "src/production-test.ts";
    "src/startup-validator.ts";
    "src/strategies.ts" ].

(** [for x in l: body(x)] *)
Fixpoint for_each {A} (l : list A) (body : A -> M unit) : M unit :=
  match l with
  | [] => ret tt
  | x :: l' => body x ;;; for_each l' body
  end.

Definition main : M unit := for_each files fix_template_literals.

(** The world after a computation. *)
Definition exec {A} (m : M A) (w : world) : world := snd (m w).

(** A status line for a file name, of either kind. *)
Definition report (filename line : string) : Prop :=
  line = "Fixed " +:+ filename \/
  exists e, line = "Error fixing " +:+ filename +:+ ": " +:+ exn_str e.

(** A small world to run the script in: one file with text to repair, one
    that may not be written, one that is not UTF-8. *)
Definition demo_world : world :=
  World
    (<["src/api-server.ts" :=
         File (Utf8 (py "a = \\`x\\`;")) true true]>
     (<["src/strategies.ts" := File (Utf8 (py "b")) true false]>
      (<["src/production-test.ts" :=
           File (NotUtf8 "byte 0xff in position 0: invalid start byte")
                true true]> ∅)))
    [].

(** ** Further tests on texts and worlds *)

(** The second pattern matches somewhere in the text: the text ends with
    three backslashes, up to a final newline. *)
Fixpoint dl_tailb (s : text) : bool :=
  dl_head s ||
  match s with
  | [] => false
  | _ :: s' => dl_tailb s'
  end.

(** The text with every character of [cs] deleted. *)
Definition without (cs : list char) (s : text) : text :=
  List.filter (fun c => negb (existsb (N.eqb c) cs)) s.

(** The error line of the handler. *)
Definition error_line (filename : string) (e : exn) : string :=
  "Error fixing " +:+ filename +:+ ": " +:+ exn_str e.

(** The world after one call and after the whole driver. *)
Definition after_call (w : world) (filename : string) : world :=
  exec (fix_template_literals filename) w.



(** * Properties of the two substitutions *)

Section Equations.

Lemma backtick_re_eq :
  backtick_re = [Re.Lit BSLASH; Re.Lit BSLASH; Re.Lit BTICK].
Proof. reflexivity. Qed.

Lemma dollar_re_eq :
  dollar_re = [Re.Lit BSLASH; Re.Lit BSLASH; Re.Lit BSLASH; Re.Eos].
Proof. reflexivity. Qed.

Lemma bt_head_true s :
  bt_head s = true <-> exists r, s = BSLASH :: BSLASH :: BTICK :: r.
Proof.
  split.
  - destruct s as [|a [|b [|c r]]]; simpl; try discriminate.
    intros H. apply andb_prop in H as [H Hc]. apply andb_prop in H as [Ha Hb].
    apply N.eqb_eq in Ha, Hb, Hc. subst. by exists r.
  - intros [r ->]. reflexivity.
Qed.

Lemma dl_head_true s :
  dl_head s = true <->
  exists e, Re.at_eos e = true /\ s = BSLASH :: BSLASH :: BSLASH :: e.
Proof.
  split.
  - destruct s as [|a [|b [|c r]]]; simpl; try discriminate.
    intros H. apply andb_prop in H as [H He]. apply andb_prop in H as [H Hc].
    apply andb_prop in H as [Ha Hb].
    apply N.eqb_eq in Ha, Hb, Hc. subst. by exists r.
  - intros (e & He & ->). simpl. by rewrite He.
Qed.

Lemma at_eos_cases e : Re.at_eos e = true <-> e = [] \/ e = [NEWLINE].
Proof.
  destruct e as [|c [|d e]]; simpl.
  - split; auto.
  - rewrite N.eqb_eq. split; [intros ->; by right | intros [?|[= ->]]; done].
  - split; [done | intros [?|?]; done].
Qed.

Lemma match_backtick s :
  Re.match_len backtick_re s = if bt_head s then Some 3%nat else None.
Proof.
  rewrite backtick_re_eq.
  destruct s as [|a [|b [|c r]]]; simpl; repeat case_match; try done.
Qed.

Lemma match_dollar s :
  Re.match_len dollar_re s = if dl_head s then Some 3%nat else None.
Proof.
  rewrite dollar_re_eq.
  destruct s as [|a [|b [|c r]]]; simpl; repeat case_match; try done.
Qed.

Lemma fix_backticks_nil : fix_backticks [] = [].
Proof. reflexivity. Qed.

Lemma fix_backticks_match r :
  fix_backticks (BSLASH :: BSLASH :: BTICK :: r) = BTICK :: fix_backticks r.
Proof. reflexivity. Qed.

Lemma fix_backticks_skip c r :
  bt_head (c :: r) = false ->
  fix_backticks (c :: r) = c :: fix_backticks r.
Proof.
  intros H. unfold fix_backticks, Re.sub. cbn [Re.scan].
  by rewrite match_backtick, H.
Qed.

Lemma fix_dollars_nil : fix_dollars [] = [].
Proof. reflexivity. Qed.

Lemma fix_dollars_match e :
  Re.at_eos e = true ->
  fix_dollars (BSLASH :: BSLASH :: BSLASH :: e) = DOLLAR :: e.
Proof. intros [-> | ->]%at_eos_cases; reflexivity. Qed.

Lemma fix_dollars_skip c r :
  dl_head (c :: r) = false ->
  fix_dollars (c :: r) = c :: fix_dollars r.
Proof.
  intros H. unfold fix_dollars, Re.sub. cbn [Re.scan].
  by rewrite match_dollar, H.
Qed.

End Equations.

(** ** The backtick substitution *)

Section Backticks.

(** Induction along the scan: the empty text, a match at the head, or a
    character that is copied. *)
Lemma fix_backticks_ind (P : list char -> Prop) :
  P [] ->
  (forall r, P r -> P (BSLASH :: BSLASH :: BTICK :: r)) ->
  (forall c r, bt_head (c :: r) = false -> P r -> P (c :: r)) ->
  forall s, P s.
Proof.
  intros Hnil Hmatch Hskip s.
  remember (length s) as n eqn:Hn. revert s Hn.
  induction n as [n IH] using lt_wf_ind. intros s Hn.
  destruct s as [|c r]; [done|].
  destruct (bt_head (c :: r)) eqn:Hh.
  - apply bt_head_true in Hh as [r' Hr']. rewrite Hr'.
    apply Hmatch. apply (IH (length r')); [|done].
    subst n. rewrite Hr'. simpl. lia.
  - apply Hskip; [done|]. apply (IH (length r)); [|done].
    subst n. simpl. lia.
Qed.

Lemma bt_head_app c r w :
  bt_head (c :: r) = false -> BTICK ∉ take 2 w ->
  bt_head (c :: r ++ w) = false.
Proof.
  intros Hh Hw.
  destruct r as [|d [|e r]]; [| |exact Hh].
  - destruct w as [|a [|b w]]; simpl; try done.
    destruct (b =? BTICK) eqn:Hb; [|by rewrite andb_false_r].
    apply N.eqb_eq in Hb. subst b. exfalso. apply Hw. simpl.
    apply list_elem_of_In. simpl. auto.
  - destruct w as [|a w]; simpl; try done.
    destruct (a =? BTICK) eqn:Ha; [|by rewrite andb_false_r].
    apply N.eqb_eq in Ha. subst a. exfalso. apply Hw.
    destruct w; apply list_elem_of_In; simpl; auto.
Qed.

(** The scan of a text [u ++ w] is the scan of [u] followed by the scan of
    [w], as soon as no match can straddle the boundary. *)
Lemma fix_backticks_app u w :
  BTICK ∉ take 2 w ->
  fix_backticks (u ++ w) = fix_backticks u ++ fix_backticks w.
Proof.
  intros Hw. induction u as [|r IH|c r Hh IH] using fix_backticks_ind.
  - done.
  - simpl. by rewrite !fix_backticks_match, IH.
  - simpl. rewrite (fix_backticks_skip c r Hh), <- app_comm_cons, <- IH.
    apply fix_backticks_skip. by apply bt_head_app.
Qed.

Lemma starts_with_spec p s :
  starts_with p s = true <-> exists v, s = p ++ v.
Proof.
  revert s. induction p as [|a p IH]; intros s; simpl.
  - split; [by exists s | done].
  - destruct s as [|b s]; [split; [done | by intros [v ?]]|].
    rewrite andb_true_iff, N.eqb_eq, IH. split.
    + intros [-> [v ->]]. by exists v.
    + intros [v [= -> ->]]. split; [done | by exists v].
Qed.

Lemma occursb_spec p s : occursb p s = true <-> occurs p s.
Proof.
  induction s as [|c s IH]; simpl; rewrite orb_true_iff, starts_with_spec.
  - split.
    + intros [[v ->] | ?]; [by exists [], v | done].
    + intros (u & v & H). left. exists v. by destruct u.
  - rewrite IH. split.
    + intros [[v ->] | (u & v & ->)]; [by exists [], v | by exists (c :: u), v].
    + intros (u & v & H). destruct u as [|a u].
      * left. by exists v.
      * right. injection H as _ ->. by exists u, v.
Qed.

Lemma occursb_false p s : occursb p s = false -> ~ occurs p s.
Proof. intros H Ho. apply occursb_spec in Ho. congruence. Qed.

Lemma occurs_cons p c s : occurs p s -> occurs p (c :: s).
Proof. intros (u & v & ->). by exists (c :: u), v. Qed.

Lemma occurs_head p v : occurs p (p ++ v).
Proof. by exists [], v. Qed.

(** A text without a match is copied unchanged. *)
Lemma fix_backticks_id s :
  ~ occurs [BSLASH; BSLASH; BTICK] s -> fix_backticks s = s.
Proof.
  induction s as [|r IH|c r Hh IH] using fix_backticks_ind; intros Hno.
  - done.
  - destruct Hno. apply (occurs_head [BSLASH; BSLASH; BTICK]).
  - rewrite fix_backticks_skip by done. f_equal. apply IH.
    intros Ho. apply Hno. by apply occurs_cons.
Qed.

Lemma not_occurs_no_backtick s :
  BTICK ∉ s -> ~ occurs [BSLASH; BSLASH; BTICK] s.
Proof.
  intros Hs (u & v & ->). apply Hs.
  rewrite !elem_of_app. right. left. apply list_elem_of_In. simpl. auto.
Qed.

Lemma fix_backticks_no_backtick s : BTICK ∉ s -> fix_backticks s = s.
Proof. intros Hs. by apply fix_backticks_id, not_occurs_no_backtick. Qed.

(** Backticks are never removed. *)
Lemma backtick_kept s : BTICK ∉ fix_backticks s -> BTICK ∉ s.
Proof.
  induction s as [|r IH|c r Hh IH] using fix_backticks_ind.
  - done.
  - rewrite fix_backticks_match. intros H. destruct H. left.
  - rewrite fix_backticks_skip by done.
    rewrite !not_elem_of_cons. intros [? ?]. split; [done|]. by apply IH.
Qed.

(** A backtick-free end of the output is an unchanged end of the input. *)
Lemma fix_backticks_tail s x v :
  fix_backticks s = x ++ v -> BTICK ∉ v ->
  exists u, s = u ++ v /\ fix_backticks u = x.
Proof.
  revert x.
  induction s as [|r IH|c r Hh IH] using fix_backticks_ind; intros x Hs Hv.
  - rewrite fix_backticks_nil in Hs. symmetry in Hs.
    apply app_eq_nil in Hs as [-> ->]. by exists [].
  - rewrite fix_backticks_match in Hs. destruct x as [|a x].
    + simpl in Hs. subst v. destruct Hv. left.
    + simpl in Hs. injection Hs as <- Hs.
      destruct (IH x Hs Hv) as (u & -> & Hu).
      exists (BSLASH :: BSLASH :: BTICK :: u). split; [done|].
      by rewrite fix_backticks_match, Hu.
  - rewrite fix_backticks_skip in Hs by done. destruct x as [|a x].
    + simpl in Hs. exists []. split; [|done]. simpl.
      rewrite <- Hs in Hv. apply not_elem_of_cons in Hv as [_ Hv].
      rewrite <- Hs. f_equal. symmetry.
      by apply fix_backticks_no_backtick, backtick_kept.
    + simpl in Hs. injection Hs as <- Hs.
      destruct (IH x Hs Hv) as (u & -> & Hu).
      exists (c :: u). split; [done|].
      rewrite fix_backticks_skip, Hu; [done|].
      destruct (bt_head (c :: u)) eqn:Hcu; [|done].
      apply bt_head_true in Hcu as [r' Hr'].
      rewrite app_comm_cons, Hr' in Hh. done.
Qed.

(** A match in the output comes from a backtick behind four backslashes
    in the input. *)
Lemma fix_backticks_new_match s :
  occurs [BSLASH; BSLASH; BTICK] (fix_backticks s) ->
  occurs [BSLASH; BSLASH; BSLASH; BSLASH; BTICK] s.
Proof.
  induction s as [|r IH|c r Hh IH] using fix_backticks_ind.
  - intros (u & v & H). rewrite fix_backticks_nil in H.
    by destruct u.
  - rewrite fix_backticks_match. intros (u & v & H).
    destruct u as [|a u]; [done|]. injection H as _ H.
    do 3 apply occurs_cons. apply IH. by exists u, v.
  - rewrite fix_backticks_skip by done. intros (u & v & H).
    destruct u as [|a u].
    2:{ injection H as _ H. apply occurs_cons, IH. by exists u, v. }
    simpl in H. injection H as -> H.
    destruct r as [|d r1]; [done|].
    destruct (bt_head (d :: r1)) eqn:Hd.
    { apply bt_head_true in Hd as [r' Hr']. by rewrite Hr' in H. }
    rewrite fix_backticks_skip in H by done. injection H as -> H.
    destruct r1 as [|e r2]; [done|].
    destruct (bt_head (e :: r2)) eqn:He.
    { apply bt_head_true in He as [r' ->].
      apply (occurs_head [BSLASH; BSLASH; BSLASH; BSLASH; BTICK]). }
    rewrite fix_backticks_skip in H by done. injection H as -> H.
    done.
Qed.

Lemma fix_backticks_stable s :
  ~ occurs [BSLASH; BSLASH; BSLASH; BSLASH; BTICK] s ->
  fix_backticks (fix_backticks s) = fix_backticks s.
Proof.
  intros Hs. apply fix_backticks_id. intros H.
  by apply Hs, fix_backticks_new_match.
Qed.

End Backticks.

(** ** The dollar substitution *)

Section Dollars.

Lemma dl_head_app c u e :
  Re.at_eos e = true ->
  dl_head (c :: u ++ BSLASH :: BSLASH :: BSLASH :: e) = false.
Proof.
  intros He. destruct (dl_head _) eqn:Hh; [|done].
  apply dl_head_true in Hh as (e' & He' & Heq).
  assert (Hlen := f_equal length Heq).
  apply at_eos_cases in He as [-> | ->], He' as [-> | ->];
    destruct u as [|a u]; simpl in Hlen; rewrite ?length_app in Hlen;
    simpl in Hlen; try lia.
  cbv in Heq. discriminate Heq.
Qed.

(** Three backslashes at the end of the text become a dollar sign. *)
Lemma fix_dollars_tail u e :
  Re.at_eos e = true ->
  fix_dollars (u ++ BSLASH :: BSLASH :: BSLASH :: e) = u ++ DOLLAR :: e.
Proof.
  intros He. induction u as [|c u IH].
  - by apply fix_dollars_match.
  - simpl. rewrite fix_dollars_skip by by apply dl_head_app.
    by rewrite IH.
Qed.

(** A match lies after every character that is neither a backslash nor a
    newline. *)
Lemma fix_dollars_after c0 u v :
  c0 <> BSLASH -> c0 <> NEWLINE ->
  fix_dollars (u ++ c0 :: v) = u ++ c0 :: fix_dollars v.
Proof.
  intros Hb Hn.
  assert (Hh : forall w, dl_head (w ++ c0 :: v) = false).
  { intros w. destruct (dl_head _) eqn:Hh; [|done].
    apply dl_head_true in Hh as (e & He & Heq).
    assert (Hin : c0 ∈ BSLASH :: BSLASH :: BSLASH :: e).
    { rewrite <- Heq, elem_of_app. right. left. }
    apply at_eos_cases in He as [-> | ->];
      repeat (apply elem_of_cons in Hin as [Hin | Hin]; [done|]);
      by apply elem_of_nil in Hin. }
  induction u as [|c u IH]; simpl.
  - apply fix_dollars_skip, (Hh []).
  - rewrite fix_dollars_skip by apply (Hh (c :: u)). by rewrite IH.
Qed.

Lemma dl_tail_cons c s : dl_tail s -> dl_tail (c :: s).
Proof. intros (u & e & He & ->). by exists (c :: u), e. Qed.

Lemma dl_tail_dec s : dl_tail s \/ ~ dl_tail s.
Proof.
  induction s as [|c r IH].
  - right. intros (u & e & _ & H). by destruct u.
  - destruct (dl_head (c :: r)) eqn:Hh.
    { left. apply dl_head_true in Hh as (e & He & ->). by exists [], e. }
    destruct IH as [IH | IH]; [left; by apply dl_tail_cons|].
    right. intros (u & e & He & H). destruct u as [|a u].
    + simpl in H. rewrite H in Hh.
      assert (dl_head (BSLASH :: BSLASH :: BSLASH :: e) = true)
        by (apply dl_head_true; eauto).
      congruence.
    + injection H as _ H. apply IH. by exists u, e.
Qed.

(** Any other text is copied unchanged. *)
Lemma fix_dollars_id s : ~ dl_tail s -> fix_dollars s = s.
Proof.
  induction s as [|c r IH]; intros Hno; [done|].
  rewrite fix_dollars_skip.
  - f_equal. apply IH. intros H. by apply Hno, dl_tail_cons.
  - destruct (dl_head (c :: r)) eqn:Hh; [|done].
    destruct Hno. apply dl_head_true in Hh as (e & He & ->). by exists [], e.
Qed.

Lemma dollar_end_not_tail u e :
  Re.at_eos e = true -> ~ dl_tail (u ++ DOLLAR :: e).
Proof.
  intros He (u' & e' & He' & H).
  apply (f_equal (@rev char)) in H.
  rewrite !rev_app_distr in H. simpl in H.
  apply at_eos_cases in He as [-> | ->], He' as [-> | ->];
    simpl in H; rewrite <- ?app_assoc in H; simpl in H;
    unfold DOLLAR, BSLASH, NEWLINE in H; discriminate H.
Qed.

Lemma fix_dollars_idem s : fix_dollars (fix_dollars s) = fix_dollars s.
Proof.
  destruct (dl_tail_dec s) as [(u & e & He & ->) | Hno].
  - rewrite fix_dollars_tail by done.
    by apply fix_dollars_id, dollar_end_not_tail.
  - rewrite (fix_dollars_id s Hno). by apply fix_dollars_id.
Qed.

End Dollars.

(** ** The two substitutions together *)

(** [c ∉ l] for a list given by its elements. *)
Ltac absent :=
  rewrite ?not_elem_of_cons; repeat split;
  try apply not_elem_of_nil; try (intros ?; discriminate).

Section Both.

(** The order of the two passes does not matter. *)
Lemma fix_dollars_backticks_comm s :
  fix_dollars (fix_backticks s) = fix_backticks (fix_dollars s).
Proof.
  destruct (dl_tail_dec s) as [(u & e & He & ->) | Hno].
  - rewrite fix_dollars_tail by done.
    assert (Hbt : (BTICK ∉ BSLASH :: BSLASH :: BSLASH :: e) /\
                  (BTICK ∉ DOLLAR :: e) /\
                  (BTICK ∉ take 2 (DOLLAR :: e)))
      by (apply at_eos_cases in He as [-> | ->]; simpl; absent).
    destruct Hbt as (Hb & Hd & Hd2).
    rewrite (fix_backticks_app u (BSLASH :: BSLASH :: BSLASH :: e))
      by (simpl; absent).
    rewrite (fix_backticks_app u (DOLLAR :: e)) by done.
    rewrite (fix_backticks_no_backtick _ Hb).
    rewrite (fix_backticks_no_backtick _ Hd).
    by apply fix_dollars_tail.
  - rewrite (fix_dollars_id s Hno). apply fix_dollars_id.
    intros (x & e & He & Hx).
    apply fix_backticks_tail in Hx as (u & -> & _).
    + apply Hno. by exists u, e.
    + apply at_eos_cases in He as [-> | ->]; absent.
Qed.

(** A text in which neither pattern matches is written back as it is. *)
Lemma fix_content_unchanged s :
  ~ occurs [BSLASH; BSLASH; BTICK] s -> ~ dl_tail s -> fix_content s = s.
Proof.
  intros Hb Hd. unfold fix_content.
  by rewrite (fix_backticks_id s Hb), (fix_dollars_id s Hd).
Qed.

Lemma fix_content_no_backslash s : BSLASH ∉ s -> fix_content s = s.
Proof.
  intros Hs. apply fix_content_unchanged.
  - intros (u & v & ->). apply Hs. rewrite elem_of_app. right. left.
  - intros (u & e & _ & ->). apply Hs. rewrite elem_of_app. right. left.
Qed.

Lemma fix_content_stable s :
  ~ occurs [BSLASH; BSLASH; BSLASH; BSLASH; BTICK] s ->
  fix_content (fix_content s) = fix_content s.
Proof.
  intros Hs. unfold fix_content.
  rewrite <- (fix_dollars_backticks_comm (fix_backticks s)).
  by rewrite fix_backticks_stable, fix_dollars_idem.
Qed.

End Both.

(** * The script in the world *)

Section Script.

(** Reading a file: the three ways to fail, and the text otherwise; the
    world is never changed. *)
Lemma read_file_run filename w :
  read_file filename w =
    (match fs w !! filename with
     | None => inl (FileNotFoundError filename)
     | Some f =>
         if f_readable f then
           match f_data f with
           | Utf8 t => inr t
           | NotUtf8 reason => inl (UnicodeDecodeError reason)
           end
         else inl (PermissionError filename)
     end, w).
Proof.
  unfold read_file, bind, open_r, read.
  destruct (fs w !! filename) as [f|]; [|done].
  destruct (f_readable f); [|done].
  by destruct (f_data f).
Qed.

Lemma read_file_world filename w : snd (read_file filename w) = w.
Proof. by rewrite read_file_run. Qed.

(** Writing a file: refused without a change, or the file holds the
    content. *)
Lemma write_file_run filename content w :
  write_file filename content w =
    match fs w !! filename with
    | None =>
        (inr tt,
         World (<[filename := File (Utf8 content) true true]> (fs w))
               (stdout w))
    | Some f =>
        if f_writable f then
          (inr tt,
           World (<[filename := File (Utf8 content) (f_readable f) true]>
                    (fs w))
                 (stdout w))
        else (inl (PermissionError filename), w)
    end.
Proof.
  unfold write_file, bind, open_w, write.
  destruct (fs w !! filename) as [f|].
  - destruct (f_writable f); [|done]. simpl. by rewrite alter_insert_eq.
  - simpl. by rewrite alter_insert_eq.
Qed.

Lemma write_file_fails filename content w e :
  fst (write_file filename content w) = inl e ->
  write_file filename content w = (inl e, w).
Proof.
  rewrite write_file_run. destruct (fs w !! filename) as [f|]; [|done].
  destruct (f_writable f); [done|]. by intros [= ->].
Qed.

Lemma write_file_succeeds filename content w :
  fst (write_file filename content w) = inr tt ->
  f_data <$> fs (exec (write_file filename content) w) !! filename =
    Some (Utf8 content) /\
  stdout (exec (write_file filename content) w) = stdout w.
Proof.
  unfold exec. rewrite write_file_run. destruct (fs w !! filename) as [f|].
  - destruct (f_writable f); [|done]. intros _. simpl.
    by rewrite lookup_insert_eq.
  - intros _. simpl. by rewrite lookup_insert_eq.
Qed.

(** The [try] block, statement by statement. *)
Lemma body_run filename w :
  fix_template_literals_body filename w =
    match fst (read_file filename w) with
    | inl e => (inl e, w)
    | inr t =>
        match write_file filename (fix_content t) w with
        | (inl e, w') => (inl e, w')
        | (inr _, w') =>
            (inr tt, World (fs w') (stdout w' ++ ["Fixed " +:+ filename]))
        end
    end.
Proof.
  unfold fix_template_literals_body, bind at 1.
  pose proof (read_file_world filename w) as Hw.
  destruct (read_file filename w) as [[e|t] w0]; simpl in *; subst w0; [done|].
  unfold bind, fix_content, print.
  by destruct (write_file _ _ w) as [[e|[]] w'].
Qed.

(** One call: the status line and the world, whatever the [try] block
    did. *)
Lemma fix_template_literals_run filename w :
  fix_template_literals filename w =
    match fix_template_literals_body filename w with
    | (inr _, w') => (inr tt, w')
    | (inl e, w') =>
        (inr tt,
         World (fs w')
               (stdout w' ++
                  ["Error fixing " +:+ filename +:+ ": " +:+ exn_str e]))
    end.
Proof.
  unfold fix_template_literals, try_except, print.
  by destruct (fix_template_literals_body filename w) as [[e|[]] w'].
Qed.

(** Whatever the [try] block does, a handler that only prints makes the
    statement return normally. *)
Lemma try_except_print_returns (body : M unit) (msg : exn -> string) w :
  fst (try_except body (fun e => print (msg e)) w) = inr tt.
Proof.
  unfold try_except, print. by destruct (body w) as [[e|[]] w'].
Qed.

Lemma fix_template_literals_returns filename w :
  fst (fix_template_literals filename w) = inr tt.
Proof. apply try_except_print_returns. Qed.

(** A loop whose body never raises runs over the whole list. *)
Lemma for_each_total {A} (body : A -> M unit) (l : list A) w :
  (forall x w, fst (body x w) = inr tt) ->
  for_each l body w = (inr tt, foldl (fun w x => exec (body x) w) w l).
Proof.
  intros Hbody. revert w. induction l as [|x l IH]; intros w; [done|].
  simpl. unfold bind, exec. specialize (Hbody x w).
  destruct (body x w) as [[e|[]] w']; [done|]. apply IH.
Qed.

End Script.

Section Calls.

Lemma call_read_fails filename w e :
  fst (read_file filename w) = inl e ->
  fix_template_literals filename w =
    (inr tt,
     World (fs w)
           (stdout w ++
              ["Error fixing " +:+ filename +:+ ": " +:+ exn_str e])).
Proof.
  intros H. by rewrite fix_template_literals_run, body_run, H.
Qed.

Lemma call_write_fails filename w t e :
  fst (read_file filename w) = inr t ->
  fst (write_file filename (fix_content t) w) = inl e ->
  fix_template_literals filename w =
    (inr tt,
     World (fs w)
           (stdout w ++
              ["Error fixing " +:+ filename +:+ ": " +:+ exn_str e])).
Proof.
  intros Hr Hw. rewrite fix_template_literals_run, body_run, Hr.
  by rewrite (write_file_fails _ _ _ _ Hw).
Qed.

Lemma call_succeeds filename w t :
  fst (read_file filename w) = inr t ->
  fst (write_file filename (fix_content t) w) = inr tt ->
  fix_template_literals filename w =
    (inr tt,
     World (fs (exec (write_file filename (fix_content t)) w))
           (stdout w ++ ["Fixed " +:+ filename])).
Proof.
  intros Hr Hw. rewrite fix_template_literals_run, body_run, Hr.
  destruct (write_file_succeeds _ _ _ Hw) as [_ Hout]. unfold exec in *.
  destruct (write_file _ _ w) as [[e|[]] w']; [done|].
  simpl in *. by rewrite Hout.
Qed.

(** The outcome of a call is one of three. *)
Lemma call_outcome filename w :
  (exists e, fst (read_file filename w) = inl e) \/
  (exists t e, fst (read_file filename w) = inr t /\
               fst (write_file filename (fix_content t) w) = inl e) \/
  (exists t, fst (read_file filename w) = inr t /\
             fst (write_file filename (fix_content t) w) = inr tt).
Proof.
  destruct (fst (read_file filename w)) as [e|t]; [left; eauto|right].
  destruct (fst (write_file filename (fix_content t) w)) as [e|[]] eqn:Hw;
    [left|right]; eauto.
Qed.

Lemma call_report filename w :
  exists line,
    stdout (exec (fix_template_literals filename) w) = stdout w ++ [line] /\
    report filename line.
Proof.
  unfold exec, report.
  destruct (call_outcome filename w)
    as [[e He] | [(t & e & Hr & Hw) | (t & Hr & Hw)]].
  - rewrite (call_read_fails _ _ _ He). eauto.
  - rewrite (call_write_fails _ _ _ _ Hr Hw). eauto.
  - rewrite (call_succeeds _ _ _ Hr Hw). eauto.
Qed.

(** The calls of a loop print one status line each, in the order of the
    list. *)
Lemma loop_report l w :
  exists lines,
    stdout (foldl (fun w filename => exec (fix_template_literals filename) w)
                  w l) = stdout w ++ lines /\
    Forall2 report l lines.
Proof.
  revert w. induction l as [|filename l IH]; intros w; simpl.
  - exists []. by rewrite app_nil_r.
  - destruct (call_report filename w) as (line & Hline & Hrep).
    destruct (IH (exec (fix_template_literals filename) w))
      as (lines & Hlines & Hreps).
    exists (line :: lines). split; [|by constructor].
    by rewrite Hlines, Hline, <- app_assoc.
Qed.

End Calls.

(** ** Lengths and deleted characters *)

Section Sizes.

(** The backtick pass only deletes backslashes. *)
Lemma fix_backticks_sublist s : fix_backticks s `sublist_of` s.
Proof.
  induction s as [|r IH|c r Hh IH] using fix_backticks_ind.
  - done.
  - rewrite fix_backticks_match.
    by apply sublist_cons, sublist_cons, sublist_skip.
  - rewrite fix_backticks_skip by done. by apply sublist_skip.
Qed.

Lemma fix_backticks_length s :
  (length (fix_backticks s) <= length s)%nat.
Proof. apply sublist_length, fix_backticks_sublist. Qed.

Lemma fix_dollars_length s : (length (fix_dollars s) <= length s)%nat.
Proof.
  destruct (dl_tail_dec s) as [(u & e & He & ->) | Hno].
  - rewrite fix_dollars_tail by done. rewrite !length_app. simpl. lia.
  - by rewrite fix_dollars_id.
Qed.

Lemma fix_content_length s : (length (fix_content s) <= length s)%nat.
Proof.
  unfold fix_content. etrans; [apply fix_dollars_length|].
  apply fix_backticks_length.
Qed.

End Sizes.

(** ** When a second application changes more *)

Section Twice.

Lemma fix_backticks_match_in u v :
  fix_backticks (u ++ [BSLASH; BSLASH; BTICK] ++ v) =
    fix_backticks u ++ [BTICK] ++ fix_backticks v.
Proof.
  rewrite fix_backticks_app by (simpl; absent).
  simpl. by rewrite fix_backticks_match.
Qed.

(** Four backslashes before a backtick leave a match in the output. *)
Lemma fix_backticks_leaves_match s :
  occurs [BSLASH; BSLASH; BSLASH; BSLASH; BTICK] s ->
  occurs [BSLASH; BSLASH; BTICK] (fix_backticks s).
Proof.
  intros (u & v & ->).
  replace (u ++ [BSLASH; BSLASH; BSLASH; BSLASH; BTICK] ++ v)
    with ((u ++ [BSLASH; BSLASH]) ++ [BSLASH; BSLASH; BTICK] ++ v)
    by by rewrite <- app_assoc.
  rewrite fix_backticks_match_in.
  rewrite (fix_backticks_app u [BSLASH; BSLASH]) by (simpl; absent).
  exists (fix_backticks u), (fix_backticks v). by rewrite <- app_assoc.
Qed.

(** The dollar pass keeps every match of the backtick pass. *)
Lemma fix_dollars_keeps_match s :
  occurs [BSLASH; BSLASH; BTICK] s ->
  occurs [BSLASH; BSLASH; BTICK] (fix_dollars s).
Proof.
  intros (u & v & ->).
  replace (u ++ [BSLASH; BSLASH; BTICK] ++ v)
    with ((u ++ [BSLASH; BSLASH]) ++ BTICK :: v)
    by by rewrite <- app_assoc.
  rewrite fix_dollars_after by discriminate.
  exists u, (fix_dollars v). by rewrite <- app_assoc.
Qed.

Lemma fix_backticks_shrinks s :
  occurs [BSLASH; BSLASH; BTICK] s ->
  (length (fix_backticks s) < length s)%nat.
Proof.
  intros (u & v & ->). rewrite fix_backticks_match_in, !length_app. simpl.
  pose proof (fix_backticks_length u). pose proof (fix_backticks_length v).
  lia.
Qed.

(** The condition under which the transformation is idempotent cannot be
    dropped on any text. *)
Lemma fix_content_twice_differs s :
  occurs [BSLASH; BSLASH; BSLASH; BSLASH; BTICK] s ->
  fix_content (fix_content s) <> fix_content s.
Proof.
  intros Hs Heq. apply (f_equal length) in Heq.
  assert (Hm : occurs [BSLASH; BSLASH; BTICK] (fix_content s))
    by by apply fix_dollars_keeps_match, fix_backticks_leaves_match.
  apply fix_backticks_shrinks in Hm.
  pose proof (fix_dollars_length (fix_backticks (fix_content s))).
  unfold fix_content in Heq at 1. lia.
Qed.

End Twice.

(** * The properties of the specification *)

(** ** The backtick substitution (C1, C2) *)

(** C1, as stated, fails: a single backslash before a backtick is not a
    match of the first pattern, and the two characters are left as they
    are. *)
Lemma single_backslash_backtick_kept :
  fix_backticks [BSLASH; BTICK] = [BSLASH; BTICK] /\
  fix_backticks [BSLASH; BTICK] <> [BTICK].
Proof. split; [reflexivity | discriminate]. Qed.

(** C1, amended: every occurrence of the three characters backslash,
    backslash, backtick is rewritten by the first substitution to a single
    backtick at that position, what precedes and what follows being
    rewritten on their own; a text without such an occurrence is not
    altered at all. *)
Theorem double_backslash_backtick_rewritten :
  (forall u v,
     fix_backticks (u ++ [BSLASH; BSLASH; BTICK] ++ v) =
       fix_backticks u ++ [BTICK] ++ fix_backticks v) /\
  (forall s,
     occursb [BSLASH; BSLASH; BTICK] s = false -> fix_backticks s = s).
Proof.
  split.
  - apply fix_backticks_match_in.
  - intros s Hs. by apply fix_backticks_id, occursb_false.
Qed.

Lemma double_backslash_backtick_rewritten_witness :
  fix_backticks (py "f(" ++ [BSLASH; BSLASH; BTICK] ++ py "x") =
    py "f(`x" /\
  (occursb [BSLASH; BSLASH; BTICK] [BSLASH; BTICK; DOLLAR] = false /\
   fix_backticks [BSLASH; BTICK; DOLLAR] = [BSLASH; BTICK; DOLLAR]).
Proof.
  split.
  - exact (proj1 double_backslash_backtick_rewritten (py "f(") (py "x")).
  - split; [reflexivity|].
    apply (proj2 double_backslash_backtick_rewritten). reflexivity.
Defined.

(** C2, as stated, fails: on backslash, backslash, backtick the output is
    not a backslash followed by a backtick. *)
Lemma leading_backslash_not_kept :
  fix_content [BSLASH; BSLASH; BTICK] <> [BSLASH; BTICK].
Proof. discriminate. Qed.

(** C2, amended: on the input backslash, backslash, backtick the whole
    three-character window is the match, and the output is the single
    backtick. *)
Theorem double_backslash_backtick_example :
  fix_content [BSLASH; BSLASH; BTICK] = [BTICK].
Proof. reflexivity. Qed.

(** ** Algebra of the two passes (C3, C4) *)

(** C3, as stated, fails: with four backslashes before a backtick, the
    first application leaves two backslashes before the backtick, which the
    second application removes. *)
Lemma second_application_changes_more :
  fix_content [BSLASH; BSLASH; BSLASH; BSLASH; BTICK] =
    [BSLASH; BSLASH; BTICK] /\
  fix_content (fix_content [BSLASH; BSLASH; BSLASH; BSLASH; BTICK]) <>
    fix_content [BSLASH; BSLASH; BSLASH; BSLASH; BTICK].
Proof. split; [reflexivity | discriminate]. Qed.

(** C3, amended: on every input text in which no backtick has four
    backslashes immediately before it, applying the transformation twice
    yields the same result as applying it once. *)
Theorem fix_content_idempotent s :
  occursb [BSLASH; BSLASH; BSLASH; BSLASH; BTICK] s = false ->
  fix_content (fix_content s) = fix_content s.
Proof. intros Hs. by apply fix_content_stable, occursb_false. Qed.

Lemma fix_content_idempotent_witness :
  occursb [BSLASH; BSLASH; BSLASH; BSLASH; BTICK]
    (py "f(\\`x\\`);" ++ [BSLASH; BSLASH; BSLASH]) = false /\
  fix_content (fix_content (py "f(\\`x\\`);" ++ [BSLASH; BSLASH; BSLASH])) =
    fix_content (py "f(\\`x\\`);" ++ [BSLASH; BSLASH; BSLASH]).
Proof.
  split; [reflexivity|]. apply fix_content_idempotent. reflexivity.
Defined.

(** C4: the two substitution passes commute, on every input text. *)
Theorem substitutions_commute s :
  fix_dollars (fix_backticks s) = fix_backticks (fix_dollars s).
Proof. apply fix_dollars_backticks_comm. Qed.

(** ** The dollar substitution (C5, C6, C10) *)

(** C5: the code at backslash, backslash, dollar.  The dollar that ends
    the second pattern is the end anchor, not a character: the text is left
    as it is.  More generally the second substitution copies every text up
    to and including any dollar sign in it, so no escaped dollar sign is
    ever rewritten. *)
Theorem escaped_dollar_not_rewritten :
  fix_content [BSLASH; BSLASH; DOLLAR] = [BSLASH; BSLASH; DOLLAR] /\
  (forall u v,
     fix_dollars (u ++ [BSLASH; BSLASH; DOLLAR] ++ v) =
       u ++ [BSLASH; BSLASH; DOLLAR] ++ fix_dollars v) /\
  Re.compile "\\\\\\$" =
    Some [Re.Lit BSLASH; Re.Lit BSLASH; Re.Lit BSLASH; Re.Eos].
Proof.
  split; [reflexivity|]. split; [|reflexivity]. intros u v.
  replace (u ++ [BSLASH; BSLASH; DOLLAR] ++ v)
    with ((u ++ [BSLASH; BSLASH]) ++ DOLLAR :: v)
    by by rewrite <- app_assoc.
  rewrite fix_dollars_after by discriminate. by rewrite <- app_assoc.
Qed.

(** With one backslash less, the same pattern has the dollar sign as a
    character, in the way the first pattern has the backtick. *)
Remark five_backslashes_escape_dollar :
  Re.compile "\\\\\$" =
    Some [Re.Lit BSLASH; Re.Lit BSLASH; Re.Lit DOLLAR] /\
  Re.compile "\\\\`" = Some [Re.Lit BSLASH; Re.Lit BSLASH; Re.Lit BTICK].
Proof. split; reflexivity. Qed.

(** C6: the code at a text that has no backtick and no dollar sign, hence
    no escaped one, and ends with three backslashes: the text is not written
    back as it was. *)
Theorem text_without_patterns_changed :
  occursb [BTICK] (py "a" ++ [BSLASH; BSLASH; BSLASH]) = false /\
  occursb [DOLLAR] (py "a" ++ [BSLASH; BSLASH; BSLASH]) = false /\
  fix_content (py "a" ++ [BSLASH; BSLASH; BSLASH]) = py "a$".
Proof. repeat split; reflexivity. Qed.

(** C10: the code at three backslashes before the final newline: the
    output has a dollar sign that the input does not have, so it is not
    obtained from the input by deleting characters. *)
Theorem output_not_subsequence :
  fix_content [BSLASH; BSLASH; BSLASH; NEWLINE] = [DOLLAR; NEWLINE] /\
  ~ sublist (fix_content [BSLASH; BSLASH; BSLASH; NEWLINE])
            [BSLASH; BSLASH; BSLASH; NEWLINE].
Proof.
  split; [reflexivity|]. intros H.
  assert (Hno : DOLLAR ∉ [BSLASH; BSLASH; BSLASH; NEWLINE]) by absent.
  apply Hno, (sublist_subseteq _ _ H). left.
Qed.

(** ** Errors, files and console (C7, C8, C9) *)

(** C7: a call of [fix_template_literals] never raises, whatever its
    [try] block raised, and the exception is printed as a diagnostic; the
    driver therefore runs the call on each of the six paths, in order, each
    on the world that the previous one left, and prints one status line per
    path. *)
Theorem errors_never_propagate :
  (forall filename w, fst (fix_template_literals filename w) = inr tt) /\
  (forall filename w e w',
     fix_template_literals_body filename w = (inl e, w') ->
     fix_template_literals filename w =
       (inr tt,
        World (fs w')
              (stdout w' ++
                 ["Error fixing " +:+ filename +:+ ": " +:+ exn_str e]))) /\
  (forall w,
     main w =
       (inr tt,
        foldl (fun w filename => exec (fix_template_literals filename) w)
              w files) /\
     exists lines,
       stdout (exec main w) = stdout w ++ lines /\ Forall2 report files lines) /\
  length files = 6%nat.
Proof.
  split; [intros; apply try_except_print_returns|].
  split; [by intros filename w e w' H; rewrite fix_template_literals_run, H|].
  split; [|done]. intros w.
  assert (Hmain : main w =
    (inr tt,
     foldl (fun w filename => exec (fix_template_literals filename) w) w files))
    by apply for_each_total, fix_template_literals_returns.
  split; [done|]. unfold exec. rewrite Hmain. apply loop_report.
Qed.

Lemma errors_never_propagate_witness :
  fix_template_literals_body "src/backfill/utils.ts" demo_world =
    (inl (FileNotFoundError "src/backfill/utils.ts"), demo_world) /\
  fix_template_literals "src/backfill/utils.ts" demo_world =
    (inr tt,
     World (fs demo_world)
           (stdout demo_world ++
              ["Error fixing src/backfill/utils.ts: [Errno 2] No such file or directory: 'src/backfill/utils.ts'"])).
Proof.
  split; [reflexivity|].
  apply (proj1 (proj2 errors_never_propagate) "src/backfill/utils.ts"
           demo_world (FileNotFoundError "src/backfill/utils.ts") demo_world).
  reflexivity.
Defined.

(** C8: when reading the file fails (it is missing, may not be read, or is
    not UTF-8), no file is changed by the call; when the file is read as
    text [t] and the transformed text is written, the file holds exactly the
    transformed text after the call. *)
Theorem file_after_call filename w :
  (forall e,
     fst (read_file filename w) = inl e ->
     fs (exec (fix_template_literals filename) w) = fs w) /\
  (forall t,
     fst (read_file filename w) = inr t ->
     fst (write_file filename (fix_content t) w) = inr tt ->
     f_data <$> fs (exec (fix_template_literals filename) w) !! filename =
       Some (Utf8 (fix_content t))).
Proof.
  split.
  - intros e He. unfold exec. by rewrite (call_read_fails _ _ _ He).
  - intros t Hr Hw. unfold exec. rewrite (call_succeeds _ _ _ Hr Hw).
    simpl. by destruct (write_file_succeeds _ _ _ Hw) as [Hf _].
Qed.

Lemma file_after_call_witness :
  (fst (read_file "src/production-test.ts" demo_world) =
     inl (UnicodeDecodeError "byte 0xff in position 0: invalid start byte") /\
   fs (exec (fix_template_literals "src/production-test.ts") demo_world) =
     fs demo_world) /\
  (fst (read_file "src/api-server.ts" demo_world) =
     inr (py "a = \\`x\\`;") /\
   fst (write_file "src/api-server.ts" (fix_content (py "a = \\`x\\`;"))
          demo_world) = inr tt /\
   f_data <$>
     fs (exec (fix_template_literals "src/api-server.ts") demo_world)
       !! "src/api-server.ts" =
     Some (Utf8 (py "a = `x`;"))).
Proof.
  split.
  - split; [reflexivity|].
    apply (proj1 (file_after_call "src/production-test.ts" demo_world)
             (UnicodeDecodeError "byte 0xff in position 0: invalid start byte")).
    reflexivity.
  - split; [reflexivity|]. split; [reflexivity|].
    apply (proj2 (file_after_call "src/api-server.ts" demo_world)
             (py "a = \\`x\\`;")); reflexivity.
Defined.

(** C9: each call prints exactly one line: [Fixed <path>] when the file is
    read, transformed and written, [Error fixing <path>: <message>] with the
    message of the exception when reading or writing raises. *)
Theorem one_status_line filename w :
  stdout (exec (fix_template_literals filename) w) =
    stdout w ++
      [match fst (read_file filename w) with
       | inl e => "Error fixing " +:+ filename +:+ ": " +:+ exn_str e
       | inr t =>
           match fst (write_file filename (fix_content t) w) with
           | inl e => "Error fixing " +:+ filename +:+ ": " +:+ exn_str e
           | inr _ => "Fixed " +:+ filename
           end
       end].
Proof.
  unfold exec.
  destruct (fst (read_file filename w)) as [e|t] eqn:Hr.
  { by rewrite (call_read_fails _ _ _ Hr). }
  destruct (fst (write_file filename (fix_content t) w)) as [e|[]] eqn:Hw.
  { by rewrite (call_write_fails _ _ _ _ Hr Hw). }
  by rewrite (call_succeeds _ _ _ Hr Hw).
Qed.

(** * Further properties of the code *)

(** ** The substitutions on texts *)

Section MoreText.

Lemma dl_tailb_spec s : dl_tailb s = true <-> dl_tail s.
Proof.
  induction s as [|c r IH].
  - simpl. split; [done|]. intros (u & e & _ & H). by destruct u.
  - change (dl_tailb (c :: r)) with (dl_head (c :: r) || dl_tailb r).
    rewrite orb_true_iff, IH. split.
    + intros [Hh | Ht]; [|by apply dl_tail_cons].
      apply dl_head_true in Hh as (e & He & ->). by exists [], e.
    + intros (u & e & He & H). destruct u as [|a u].
      * left. simpl in H. rewrite H. apply dl_head_true. eauto.
      * right. injection H as _ ->. by exists u, e.
Qed.

Lemma dl_tailb_false s : dl_tailb s = false -> ~ dl_tail s.
Proof. intros H Ht. apply dl_tailb_spec in Ht. congruence. Qed.

(** Deleting characters commutes with the backtick pass, as soon as the
    backslash is among the deleted ones. *)
Lemma without_fix_backticks cs s :
  existsb (N.eqb BSLASH) cs = true ->
  without cs (fix_backticks s) = without cs s.
Proof.
  intros Hcs. induction s as [|r IH|c r Hh IH] using fix_backticks_ind.
  - done.
  - rewrite fix_backticks_match. unfold without in *. simpl.
    rewrite Hcs. simpl. by rewrite IH.
  - rewrite fix_backticks_skip by done. unfold without in *. simpl.
    by rewrite IH.
Qed.

Lemma without_app cs u v : without cs (u ++ v) = without cs u ++ without cs v.
Proof. apply List.filter_app. Qed.

Lemma without_fix_dollars cs s :
  existsb (N.eqb BSLASH) cs = true ->
  existsb (N.eqb DOLLAR) cs = true ->
  without cs (fix_dollars s) = without cs s.
Proof.
  intros Hb Hd. destruct (dl_tail_dec s) as [(u & e & He & ->) | Hno].
  - rewrite fix_dollars_tail by done. rewrite !without_app. f_equal.
    unfold without. simpl. by rewrite Hb, Hd.
  - by rewrite fix_dollars_id.
Qed.

Lemma fix_backticks_drop2 s :
  fix_backticks s = s \/ (length (fix_backticks s) + 2 <= length s)%nat.
Proof.
  destruct (occursb [BSLASH; BSLASH; BTICK] s) eqn:Ho.
  - right. apply occursb_spec in Ho as (u & v & ->).
    rewrite fix_backticks_match_in, !length_app. simpl.
    pose proof (fix_backticks_length u). pose proof (fix_backticks_length v).
    lia.
  - left. by apply fix_backticks_id, occursb_false.
Qed.

Lemma fix_dollars_drop2 s :
  fix_dollars s = s \/ (length (fix_dollars s) + 2 = length s)%nat.
Proof.
  destruct (dl_tail_dec s) as [(u & e & He & ->) | Hno].
  - right. rewrite fix_dollars_tail by done. rewrite !length_app. simpl. lia.
  - left. by apply fix_dollars_id.
Qed.

Lemma fix_content_drop2 s :
  fix_content s = s \/ (length (fix_content s) + 2 <= length s)%nat.
Proof.
  unfold fix_content.
  destruct (fix_backticks_drop2 s) as [Hb | Hb].
  - rewrite Hb. destruct (fix_dollars_drop2 s) as [Hd | Hd]; [by left|].
    right. lia.
  - right. pose proof (fix_dollars_length (fix_backticks s)). lia.
Qed.

Lemma iter_fixed_point (n : nat) s :
  fix_content s = s -> Nat.iter n fix_content s = s.
Proof. intros H. induction n as [|n IH]; simpl; [done|]. by rewrite IH. Qed.

Lemma iter_reaches_fixed_point (n : nat) s :
  (length s < 2 * n + 2)%nat ->
  fix_content (Nat.iter n fix_content s) = Nat.iter n fix_content s.
Proof.
  revert s. induction n as [|n IH]; intros s Hlen.
  - simpl. destruct (fix_content_drop2 s) as [H | H]; [done | lia].
  - destruct (fix_content_drop2 s) as [H | H].
    + by rewrite iter_fixed_point.
    + rewrite Nat.iter_succ_r. apply IH. lia.
Qed.

End MoreText.

(** X1: the second substitution changes the end of the text and nothing
    else: three backslashes at the end of the text, or just before its
    final newline, become one dollar sign; a text that does not end in this
    way is returned as it is. *)
Theorem fix_dollars_rewrites_end :
  (forall u e,
     Re.at_eos e = true ->
     fix_dollars (u ++ [BSLASH; BSLASH; BSLASH] ++ e) = u ++ [DOLLAR] ++ e) /\
  (forall s, dl_tailb s = false -> fix_dollars s = s).
Proof.
  split.
  - intros u e He. by apply fix_dollars_tail.
  - intros s Hs. by apply fix_dollars_id, dl_tailb_false.
Qed.

Lemma fix_dollars_rewrites_end_witness :
  (Re.at_eos [NEWLINE] = true /\
   fix_dollars (py "x = 1;" ++ [BSLASH; BSLASH; BSLASH] ++ [NEWLINE]) =
     py "x = 1;$" ++ [NEWLINE]) /\
  (dl_tailb ([BSLASH; BSLASH; BSLASH] ++ py "${x}" ++ [NEWLINE]) = false /\
   fix_dollars ([BSLASH; BSLASH; BSLASH] ++ py "${x}" ++ [NEWLINE]) =
     [BSLASH; BSLASH; BSLASH] ++ py "${x}" ++ [NEWLINE]).
Proof.
  split.
  - split; [reflexivity|].
    apply (proj1 fix_dollars_rewrites_end (py "x = 1;") [NEWLINE]).
    reflexivity.
  - split; [reflexivity|].
    apply (proj2 fix_dollars_rewrites_end). reflexivity.
Defined.

(** X2: the second substitution alone is idempotent on every text: after
    it, the text ends with a dollar sign, or did not match at all. *)
Theorem fix_dollars_idempotent s :
  fix_dollars (fix_dollars s) = fix_dollars s.
Proof. apply fix_dollars_idem. Qed.

(** X3: the first substitution only deletes backslashes: its output is
    obtained from the input by deleting characters, and the input and the
    output are the same text once the backslashes are left out. *)
Theorem fix_backticks_deletes_backslashes s :
  sublist (fix_backticks s) s /\
  without [BSLASH] (fix_backticks s) = without [BSLASH] s.
Proof.
  split; [apply fix_backticks_sublist|]. by apply without_fix_backticks.
Qed.

(** X4: the transformation touches backslashes and dollar signs only:
    every other character of the input, backticks included, is in the
    output, in the same order, and no other character is added. *)
Theorem fix_content_keeps_other_characters s :
  without [BSLASH; DOLLAR] (fix_content s) = without [BSLASH; DOLLAR] s.
Proof.
  unfold fix_content.
  rewrite without_fix_dollars by reflexivity.
  by apply without_fix_backticks.
Qed.

(** X5: the transformation returns the text as it is, or a text that is
    shorter by two characters at least; the output is never longer than the
    input. *)
Theorem fix_content_same_or_shorter s :
  (fix_content s = s \/ (length (fix_content s) + 2 <= length s)%nat) /\
  (length (fix_content s) <= length s)%nat.
Proof. split; [apply fix_content_drop2 | apply fix_content_length]. Qed.

(** X6: applying the transformation again and again comes to a text that
    it no longer changes, after half as many applications as the text has
    characters, at most. *)
Theorem fix_content_reaches_fixed_point s :
  fix_content (Nat.iter (length s / 2) fix_content s) =
    Nat.iter (length s / 2) fix_content s.
Proof.
  apply iter_reaches_fixed_point.
  pose proof (Nat.div_mod_eq (length s) 2).
  pose proof (Nat.mod_upper_bound (length s) 2). lia.
Qed.

(** X7: on every text in which some backtick has four backslashes before
    it, a second application of the transformation gives a result that
    differs from the result of the first. *)
Theorem fix_content_second_pass_needed s :
  occursb [BSLASH; BSLASH; BSLASH; BSLASH; BTICK] s = true ->
  fix_content (fix_content s) <> fix_content s.
Proof. intros Hs. by apply fix_content_twice_differs, occursb_spec. Qed.

Lemma fix_content_second_pass_needed_witness :
  occursb [BSLASH; BSLASH; BSLASH; BSLASH; BTICK]
    (py "s = \\\\`a\\\\`;") = true /\
  fix_content (fix_content (py "s = \\\\`a\\\\`;")) <>
    fix_content (py "s = \\\\`a\\\\`;").
Proof.
  split; [reflexivity|].
  apply fix_content_second_pass_needed. reflexivity.
Defined.

(** X8: a text without any backslash is returned as it is by the
    transformation. *)
Theorem fix_content_without_backslash s :
  occursb [BSLASH] s = false -> fix_content s = s.
Proof.
  intros Hs. apply fix_content_no_backslash. intros Hin.
  apply occursb_false in Hs. apply Hs.
  apply list_elem_of_split in Hin as (u & v & ->). by exists u, v.
Qed.

Lemma fix_content_without_backslash_witness :
  occursb [BSLASH] (py "const s = `${a}`;") = false /\
  fix_content (py "const s = `${a}`;") = py "const s = `${a}`;".
Proof.
  split; [reflexivity|].
  apply fix_content_without_backslash. reflexivity.
Defined.

(** ** Calls and the driver in the world *)

Section MoreCalls.

(** The world after a call, case by case on the file. *)
Lemma call_world filename w :
  after_call w filename =
    match fs w !! filename with
    | None =>
        World (fs w)
              (stdout w ++ [error_line filename (FileNotFoundError filename)])
    | Some f =>
        if f_readable f then
          match f_data f with
          | NotUtf8 reason =>
              World (fs w)
                    (stdout w ++
                       [error_line filename (UnicodeDecodeError reason)])
          | Utf8 t =>
              if f_writable f then
                World (<[filename := File (Utf8 (fix_content t)) true true]>
                         (fs w))
                      (stdout w ++ ["Fixed " +:+ filename])
              else
                World (fs w)
                      (stdout w ++
                         [error_line filename (PermissionError filename)])
          end
        else
          World (fs w)
                (stdout w ++ [error_line filename (PermissionError filename)])
    end.
Proof.
  unfold after_call, exec, error_line.
  rewrite fix_template_literals_run, body_run, read_file_run. simpl.
  destruct (fs w !! filename) as [f|] eqn:Hf; [|done].
  destruct (f_readable f) eqn:Hr; [|done].
  destruct (f_data f) as [t|reason]; [|done].
  rewrite write_file_run, Hf, Hr. by destruct (f_writable f).
Qed.

(** The files after a call: the file of the call may have new content,
    everything else is as before. *)
Lemma call_fs filename w :
  fs (after_call w filename) = fs w \/
  exists f t,
    fs w !! filename = Some f /\ f_data f = Utf8 t /\
    f_readable f = true /\ f_writable f = true /\
    fs (after_call w filename) =
      <[filename := File (Utf8 (fix_content t)) true true]> (fs w).
Proof.
  rewrite call_world.
  destruct (fs w !! filename) as [f|] eqn:Hf; [|by left].
  destruct (f_readable f) eqn:Hr; [|by left].
  destruct (f_data f) as [t|reason] eqn:Hd; [|by left].
  destruct (f_writable f) eqn:Hw; [|by left].
  right. by exists f, t.
Qed.





Lemma main_world w : exec main w = foldl after_call w files.
Proof.
  unfold exec, main.
  by rewrite (for_each_total _ _ _ fix_template_literals_returns).
Qed.


End MoreCalls.



(** X10: a call creates no file and removes none, whatever its outcome (a
    missing file stays missing, although opening for writing would create
    it), and it leaves the permissions of every file as they were. *)
Theorem call_keeps_files_and_permissions filename w :
  dom (fs (after_call w filename)) = dom (fs w) /\
  (forall q,
     (fun f => (f_readable f, f_writable f)) <$>
       fs (after_call w filename) !! q =
     (fun f => (f_readable f, f_writable f)) <$> fs w !! q).
Proof.
  destruct (call_fs filename w)
    as [-> | (f & t & Hf & _ & Hr & Hw & ->)]; [done|].
  split.
  - rewrite dom_insert_L. apply subseteq_union_1_L, singleton_subseteq_l.
    by apply elem_of_dom_2 in Hf.
  - intros q. destruct (decide (q = filename)) as [-> | Hq].
    + rewrite lookup_insert_eq, Hf. simpl. by rewrite Hr, Hw.
    + by rewrite lookup_insert_ne.
Qed.

(** X11: when the file can be read as text but may not be written, the
    call leaves every file as it was (the file is not emptied) and prints
    the permission error for that file. *)
Theorem call_on_read_only_file filename w f t :
  fs w !! filename = Some f ->
  f_readable f = true ->
  f_data f = Utf8 t ->
  f_writable f = false ->
  after_call w filename =
    World (fs w)
          (stdout w ++ [error_line filename (PermissionError filename)]).
Proof.
  intros Hf Hr Hd Hw. by rewrite call_world, Hf, Hr, Hd, Hw.
Qed.

Lemma call_on_read_only_file_witness :
  (fs demo_world !! "src/strategies.ts" =
     Some (File (Utf8 (py "b")) true false) /\
   f_readable (File (Utf8 (py "b")) true false) = true /\
   f_data (File (Utf8 (py "b")) true false) = Utf8 (py "b") /\
   f_writable (File (Utf8 (py "b")) true false) = false) /\
  after_call demo_world "src/strategies.ts" =
    World (fs demo_world)
          (stdout demo_world ++
             ["Error fixing src/strategies.ts: [Errno 13] Permission denied: 'src/strategies.ts'"]).
Proof.
  split; [repeat split; reflexivity|].
  apply (call_on_read_only_file "src/strategies.ts" demo_world
           (File (Utf8 (py "b")) true false) (py "b")); reflexivity.
Defined.



(** X13: two calls in a row on a readable and writable file: both print
    [Fixed <path>], and the file then holds the text transformed twice. *)
Theorem call_twice filename w f t :
  fs w !! filename = Some f ->
  f_readable f = true ->
  f_writable f = true ->
  f_data f = Utf8 t ->
  after_call (after_call w filename) filename =
    World (<[filename := File (Utf8 (fix_content (fix_content t))) true true]>
             (fs w))
          (stdout w ++ ["Fixed " +:+ filename; "Fixed " +:+ filename]).
Proof.
  intros Hf Hr Hw Hd.
  rewrite (call_world filename w), Hf, Hr, Hd, Hw.
  rewrite call_world. simpl. rewrite lookup_insert_eq. simpl.
  by rewrite insert_insert_eq, <- app_assoc.
Qed.

Lemma call_twice_witness :
  (fs demo_world !! "src/api-server.ts" =
     Some (File (Utf8 (py "a = \\`x\\`;")) true true) /\
   f_readable (File (Utf8 (py "a = \\`x\\`;")) true true) = true /\
   f_writable (File (Utf8 (py "a = \\`x\\`;")) true true) = true /\
   f_data (File (Utf8 (py "a = \\`x\\`;")) true true) =
     Utf8 (py "a = \\`x\\`;")) /\
  after_call (after_call demo_world "src/api-server.ts") "src/api-server.ts" =
    World (<["src/api-server.ts" :=
               File (Utf8 (fix_content (fix_content (py "a = \\`x\\`;"))))
                    true true]> (fs demo_world))
          (stdout demo_world ++
             ["Fixed src/api-server.ts"; "Fixed src/api-server.ts"]).
Proof.
  split; [repeat split; reflexivity|].
  apply (call_twice "src/api-server.ts" demo_world
           (File (Utf8 (py "a = \\`x\\`;")) true true)
           (py "a = \\`x\\`;")); reflexivity.
Defined.





Section FileSet.

Lemma call_dom filename w : dom (fs (after_call w filename)) = dom (fs w).
Proof.
  destruct (call_fs filename w)
    as [-> | (f & t & Hf & _ & _ & _ & ->)]; [done|].
  rewrite dom_insert_L. apply subseteq_union_1_L, singleton_subseteq_l.
  by apply elem_of_dom_2 in Hf.
Qed.

Lemma loop_dom l w : dom (fs (foldl after_call w l)) = dom (fs w).
Proof.
  revert w. induction l as [|p l IH]; intros w; [done|].
  simpl. by rewrite IH, call_dom.
Qed.

End FileSet.

(** X16: the driver creates no file and removes none: the paths of the
    list that do not exist are reported and still do not exist
    afterwards. *)
Theorem main_keeps_file_set w :
  dom (fs (exec main w)) = dom (fs w).
Proof. rewrite main_world. apply loop_dom. Qed.
